(** * musicbrainz-cuesheet: a shallow embedding of src/main.rs

    The release metadata the program receives from musicbrainz_rs is modelled
    by records with the fields [main] reads.  Integers of type [u32] are [Z]
    values in [0, 2^32); the track-offset accumulation wraps modulo [2^32] as
    a release build of the program does.  The [f64] arithmetic of
    [millisecond_to_mmssff] is carried out on the kernel's primitive binary64
    floats.  [writeln!] into a [String] is modelled by a list of lines that is
    rendered, each line followed by a newline, into the file contents. *)

From Stdlib Require Import ZArith Lia Bool List Ascii String.
From Stdlib Require Import DecimalString Floats Uint63.
Import ListNotations.
Open Scope string_scope.
Open Scope Z_scope.

(** List concatenation; [++] is the string append. *)
Infix "+++" := app (at level 60, right associativity).

(** ** Text helpers *)

Definition dq : string := String "034"%char EmptyString.
Definition nl : string := String "010"%char EmptyString.

(** [format!("\"{}\"", s)] *)
Definition quoted (s : string) : string := dq ++ s ++ dq.

(** [Display] of a non-negative integer. *)
Definition display_u (n : Z) : string :=
  NilEmpty.string_of_uint (N.to_uint (Z.to_N n)).

(** [Display] of a signed integer ([i32]): a minus sign, then the digits. *)
Definition display_i (n : Z) : string :=
  if n <? 0 then "-" ++ display_u (- n) else display_u n.

Fixpoint zeros (k : nat) : string :=
  match k with
  | O => ""
  | S k' => "0" ++ zeros k'
  end.

(** Zero padding of the digits [s] to at least [w] characters. *)
Definition pad_zeros (w : nat) (s : string) : string :=
  zeros (w - String.length s) ++ s.

(** [format!("{:02}", n)] for an unsigned integer. *)
Definition fmt02 (n : Z) : string := pad_zeros 2 (display_u n).

(** The text a [String] receives from successive [writeln!] calls. *)
Fixpoint render (ls : list string) : string :=
  match ls with
  | [] => ""
  | l :: rest => l ++ nl ++ render rest
  end.

Definition default {A} (d : A) (o : option A) : A :=
  match o with Some x => x | None => d end.

(** [Iterator::filter_map] *)
Fixpoint filter_map {A B} (f : A -> option B) (l : list A) : list B :=
  match l with
  | [] => []
  | x :: rest =>
      match f x with
      | Some y => y :: filter_map f rest
      | None => filter_map f rest
      end
  end.

(** ** The metadata read from musicbrainz_rs *)

Record ArtistCredit := { ac_name : string; ac_joinphrase : option string }.
Record Genre := { genre_name : string }.

(** chrono's [NaiveDate]: a proleptic Gregorian calendar date. *)
Record NaiveDate := { nd_year : Z; nd_month : Z; nd_day : Z }.

Record ReleaseGroup := {
  rg_genres : option (list Genre);
  rg_first_release_date : option NaiveDate }.

Record Label := { label_name : string }.
Record LabelInfo := { li_label : option Label }.
Record Recording := { rec_artist_credit : option (list ArtistCredit) }.

Record Track := {
  tr_position : Z;
  tr_title : string;
  tr_recording : Recording;
  tr_length : option Z }.

Record Medium := {
  md_format : option string;
  md_position : option Z;
  md_title : option string;
  md_tracks : option (list Track) }.

Record Release := {
  rl_id : string;
  rl_title : string;
  rl_artist_credit : option (list ArtistCredit);
  rl_release_group : option ReleaseGroup;
  rl_label_info : option (list LabelInfo);
  rl_media : option (list Medium) }.

(** ** [join_artists] *)

Definition join_artists (artists : list ArtistCredit) : string :=
  String.concat "" (map (fun a => ac_name a ++ default "" (ac_joinphrase a)) artists).

(** ** [millisecond_to_mmssff] *)

(** [1000.0 / 75.0] *)
Definition MILLISECONDS_PER_FRAME : float :=
  PrimFloat.div (of_uint63 1000%uint63) (of_uint63 75%uint63).

(** [(x).round() as u32]: [f64::round] rounds half away from zero, and the
    cast saturates ([NaN] and negative values give 0).  The rounding is done
    on the exact value [m * 2^e] of the float. *)
Definition round_as_u32 (x : float) : Z :=
  match Prim2SF x with
  | SpecFloat.S754_finite false m e =>
      let r := if 0 <=? e then Z.pos m * 2 ^ e
               else (2 * Z.pos m + 2 ^ (- e)) / 2 ^ (1 - e) in
      Z.min r (2 ^ 32 - 1)
  | SpecFloat.S754_infinity false => 2 ^ 32 - 1
  | _ => 0
  end.

(** [let ms_part = (ms as f64) % 1000.0;]  The IEEE remainder is exact, so
    for the integral [ms] it is the float of [ms mod 1000]. *)
Definition ms_part (ms : Z) : float := of_uint63 (Uint63.of_Z (ms mod 1000)).

Definition frames (ms : Z) : Z :=
  round_as_u32 (PrimFloat.div (ms_part ms) MILLISECONDS_PER_FRAME).

Definition seconds (ms : Z) : Z := (ms / 1000) mod 60.
Definition minutes (ms : Z) : Z := ms / 60000.

Definition millisecond_to_mmssff (ms : Z) : string :=
  fmt02 (minutes ms) ++ ":" ++ fmt02 (seconds ms) ++ ":" ++ fmt02 (frames ms).

(** ** chrono's date rendering *)

Definition is_leap (y : Z) : bool :=
  (y mod 4 =? 0) && (negb (y mod 100 =? 0) || (y mod 400 =? 0)).

Definition month_lengths (y : Z) : list Z :=
  [31; if is_leap y then 29 else 28; 31; 30; 31; 30; 31; 31; 30; 31; 30; 31].

(** [Datelike::ordinal]: the day of the year, starting at 1. *)
Definition ordinal (d : NaiveDate) : Z :=
  fold_right Z.add 0 (firstn (Z.to_nat (nd_month d - 1)) (month_lengths (nd_year d)))
  + nd_day d.

(** [NaiveDate]'s [Display]: [YYYY-MM-DD] for years 0 to 9999, otherwise the
    year with an explicit sign, zero padded to 5 characters ([{:+05}]). *)
Definition naive_date_to_string (d : NaiveDate) : string :=
  let y := nd_year d in
  let ys := if (0 <=? y) && (y <=? 9999) then pad_zeros 4 (display_u y)
            else (if y <? 0 then "-" else "+") ++ pad_zeros 4 (display_u (Z.abs y)) in
  ys ++ "-" ++ fmt02 (nd_month d) ++ "-" ++ fmt02 (nd_day d).

(** ** The release header, [release_cuesheet] in [main] *)

Definition performer_lines (r : Release) : list string :=
  match rl_artist_credit r with
  | Some artists => ["PERFORMER " ++ quoted (join_artists artists)]
  | None => []
  end.

Definition genre_lines (rg : ReleaseGroup) : list string :=
  match rg_genres rg with
  | Some genres => ["REM GENRE " ++ String.concat "; " (map genre_name genres)]
  | None => []
  end.

Definition date_lines (rg : ReleaseGroup) : list string :=
  match rg_first_release_date rg with
  | Some release_date =>
      ["REM DATE " ++ (if ordinal release_date =? 1
                        then display_i (nd_year release_date)
                        else naive_date_to_string release_date)]
  | None => []
  end.

Definition release_group_lines (r : Release) : list string :=
  match rl_release_group r with
  | Some release_group => genre_lines release_group +++ date_lines release_group
  | None => []
  end.

(** [for l in label.into_iter().filter_map(|li| li.label) { if !l.name.is_empty() ... }] *)
Fixpoint label_comment_lines (labels : list Label) : list string :=
  match labels with
  | [] => []
  | l :: rest =>
      if negb (String.eqb (label_name l) "")
      then ("REM COMMENT " ++ quoted (label_name l)) :: label_comment_lines rest
      else label_comment_lines rest
  end.

Definition label_lines (r : Release) : list string :=
  match rl_label_info r with
  | Some label => label_comment_lines (filter_map li_label label)
  | None => []
  end.

Definition release_cuesheet_lines (r : Release) : list string :=
  performer_lines r +++ release_group_lines r +++ label_lines r +++
  ["REM MUSICBRAINZ_ALBUM_ID " ++ rl_id r; "FILE " ++ quoted "CDImage.flac" ++ " WAVE"].

(** ** One medium *)

Definition medium_id (m : Medium) : string :=
  default "" (md_format m) ++ " " ++ fmt02 (default 0 (md_position m)).

Definition medium_title (release_title : string) (is_album : bool) (m : Medium) : string :=
  let t0 := "TITLE " ++ dq ++ release_title in
  let t1 := if is_album then t0 ++ "- " ++ medium_id m else t0 in
  let t2 := match md_title m with
            | Some t => if negb (String.eqb t "") then t1 ++ ": " ++ t else t1
            | None => t1
            end in
  t2 ++ dq.

(** [track_start += track_length] on [u32], wrapping. *)
Definition u32_add (a b : Z) : Z := (a + b) mod 2 ^ 32.

Definition track_performer_lines (t : Track) : list string :=
  match rec_artist_credit (tr_recording t) with
  | Some track_artists => ["    PERFORMER " ++ quoted (join_artists track_artists)]
  | None => []
  end.

(** The lines one iteration of the track loop writes, [track_start] being
    the offset of the track. *)
Definition track_block (t : Track) (track_start : Z) : list string :=
  ["  TRACK " ++ fmt02 (tr_position t) ++ " AUDIO"; "    TITLE " ++ quoted (tr_title t)] +++
  track_performer_lines t +++
  ["    INDEX 01 " ++ millisecond_to_mmssff track_start].

(** The track loop.  [track.length.unwrap()] panics on [None]; the panic
    discards [medium_cuesheet], which is then never written, so the loop
    returns [None]. *)
Fixpoint track_lines (track_start : Z) (tracks : list Track) : option (list string) :=
  match tracks with
  | [] => Some []
  | track :: rest =>
      match tr_length track with
      | None => None
      | Some track_length =>
          match track_lines (u32_add track_start track_length) rest with
          | Some ls => Some (track_block track track_start +++ ls)
          | None => None
          end
      end
  end.

(** [medium_cuesheet = format!("{medium_title}\n{release_cuesheet}")] followed
    by the track loop. *)
Definition medium_cuesheet (release_title : string) (is_album : bool)
    (release_cuesheet : list string) (m : Medium) : option (list string) :=
  match track_lines 0 (default [] (md_tracks m)) with
  | Some ls => Some (medium_title release_title is_album m :: release_cuesheet +++ ls)
  | None => None
  end.

(** ** The media loop of [main]: the files written, and whether it panicked

    Here every [std::fs::write] succeeds; its failure, a panic of its own,
    is part of [main] below ([fs_ok]). *)

Inductive Outcome := Completed | Panicked.

Fixpoint write_media (release_title : string) (is_album : bool)
    (release_cuesheet : list string) (media : list Medium)
    : list (string * string) * Outcome :=
  match media with
  | [] => ([], Completed)
  | m :: rest =>
      match medium_cuesheet release_title is_album release_cuesheet m with
      | None => ([], Panicked)
      | Some ls =>
          let '(written, o) := write_media release_title is_album release_cuesheet rest in
          ((medium_id m ++ ".cue", render ls) :: written, o)
      end
  end.

Definition cuesheet_generation (r : Release) : list (string * string) * Outcome :=
  let release_cuesheet := release_cuesheet_lines r in
  match rl_media r with
  | Some media => write_media (rl_title r) (1 <? List.length media)%nat release_cuesheet media
  | None => ([], Completed)
  end.

(** ** Statement helpers *)

(** The lengths of the tracks, when every one is present. *)
Fixpoint track_lengths (tracks : list Track) : option (list Z) :=
  match tracks with
  | [] => Some []
  | t :: rest =>
      match tr_length t, track_lengths rest with
      | Some l, Some ls => Some (l :: ls)
      | _, _ => None
      end
  end.

Definition sum (l : list Z) : Z := fold_right Z.add 0 l.

(** The lines of a cuesheet that start with [p]. *)
Definition lines_with_prefix (p : string) (ls : list string) : list string :=
  filter (String.prefix p) ls.

(** The offsets [track_start] takes in the track loop, from [s] on. *)
Fixpoint starts (s : Z) (lens : list Z) : list Z :=
  match lens with
  | [] => []
  | l :: rest => s :: starts (u32_add s l) rest
  end.

(** The track blocks of [tracks] at the offsets [offsets]. *)
Fixpoint blocks (tracks : list Track) (offsets : list Z) : list (list string) :=
  match tracks, offsets with
  | t :: ts, o :: os => track_block t o :: blocks ts os
  | _, _ => []
  end.

(** ** Lemmas on strings and lists *)

Lemma string_app_assoc (a b c : string) : (a ++ b) ++ c = a ++ (b ++ c).
Proof. induction a as [| x a IH]; simpl; [reflexivity | now rewrite IH]. Qed.

Lemma prefix_app (p x : string) : String.prefix p (p ++ x) = true.
Proof.
  induction p as [| a p IH]; simpl; [now destruct x |].
  destruct (ascii_dec a a) as [_ | n]; [exact IH | now contradiction n].
Qed.

Lemma filter_nil_of {A} (f : A -> bool) (l : list A) :
  (forall x, In x l -> f x = false) -> filter f l = [].
Proof.
  induction l as [| x l IH]; intros H; simpl; [reflexivity |].
  rewrite (H x (or_introl eq_refl)). apply IH. intros y Hy. apply H. now right.
Qed.

Lemma filter_all_of {A} (f : A -> bool) (l : list A) :
  (forall x, In x l -> f x = true) -> filter f l = l.
Proof.
  induction l as [| x l IH]; intros H; simpl; [reflexivity |].
  rewrite (H x (or_introl eq_refl)). f_equal. apply IH. intros y Hy. apply H. now right.
Qed.

Lemma label_comment_lines_shape (ls : list Label) (x : string) :
  In x (label_comment_lines ls) -> exists n, x = "REM COMMENT " ++ quoted n.
Proof.
  induction ls as [| l ls IH]; simpl; [tauto |].
  destruct (negb (String.eqb (label_name l) "")); [| exact IH].
  intros [<- | H]; [now exists (label_name l) | exact (IH H)].
Qed.

(** ** The track loop *)

Lemma track_lines_some (s : Z) (ts : list Track) (tl : list string) :
  track_lines s ts = Some tl ->
  exists lens, track_lengths ts = Some lens /\ tl = List.concat (blocks ts (starts s lens)).
Proof.
  revert s tl. induction ts as [| t ts IH]; intros s tl H; simpl in *.
  - injection H as <-. now exists [].
  - destruct (tr_length t) as [len |]; [| discriminate].
    destruct (track_lines (u32_add s len) ts) as [ls |] eqn:E; [| discriminate].
    injection H as <-. destruct (IH _ _ E) as (lens & -> & ->).
    exists (len :: lens). split; reflexivity.
Qed.

Lemma track_lines_none (s : Z) (ts : list Track) :
  track_lengths ts = None -> track_lines s ts = None.
Proof.
  revert s. induction ts as [| t ts IH]; intros s H; simpl in *; [discriminate |].
  destruct (tr_length t) as [len |]; [| reflexivity].
  destruct (track_lengths ts) as [lens |]; [discriminate |].
  now rewrite (IH _ eq_refl).
Qed.

Lemma track_lengths_length (ts : list Track) (lens : list Z) :
  track_lengths ts = Some lens -> List.length lens = List.length ts.
Proof.
  revert lens. induction ts as [| t ts IH]; intros lens H; simpl in H.
  - now injection H as <-.
  - destruct (tr_length t), (track_lengths ts) eqn:E; try discriminate.
    injection H as <-. simpl. now rewrite (IH _ eq_refl).
Qed.

Lemma track_lengths_app_none (pre : list Track) (t : Track) (post : list Track) :
  tr_length t = None -> track_lengths (pre +++ t :: post) = None.
Proof.
  intros Ht. induction pre as [| u pre IH]; simpl.
  - now rewrite Ht.
  - rewrite IH. now destruct (tr_length u).
Qed.

Lemma starts_length (s : Z) (lens : list Z) : List.length (starts s lens) = List.length lens.
Proof. revert s. induction lens; intros s; simpl; [reflexivity | now rewrite IHlens]. Qed.

Lemma nth_error_starts (s : Z) (lens : list Z) (k : nat) :
  0 <= s < 2 ^ 32 -> (k < List.length lens)%nat ->
  nth_error (starts s lens) k = Some ((s + sum (firstn k lens)) mod 2 ^ 32).
Proof.
  revert s k. induction lens as [| l lens IH]; intros s k Hs Hk; simpl in *; [lia |].
  destruct k as [| k]; simpl.
  - f_equal. rewrite Z.add_0_r. symmetry. now apply Z.mod_small.
  - rewrite IH by (unfold u32_add; try apply Z.mod_pos_bound; lia).
    f_equal. unfold u32_add. rewrite Zplus_mod_idemp_l. f_equal. lia.
Qed.

(** ** The media loop *)

Lemma write_media_nth (title : string) (is_album : bool) (hdr : list string)
    (ms : list Medium) (i : nat) (f c : string) :
  nth_error (fst (write_media title is_album hdr ms)) i = Some (f, c) ->
  exists m ls, nth_error ms i = Some m /\
    medium_cuesheet title is_album hdr m = Some ls /\
    f = medium_id m ++ ".cue" /\ c = render ls.
Proof.
  revert i. induction ms as [| m ms IH]; intros i H; simpl in H.
  - destruct i; discriminate.
  - destruct (medium_cuesheet title is_album hdr m) as [ls |] eqn:E.
    + destruct (write_media title is_album hdr ms) as [w o] eqn:W. simpl in H.
      destruct i as [| i]; simpl in H.
      * injection H as <- <-. now exists m, ls.
      * apply IH. exact H.
    + destruct i; discriminate.
Qed.

Lemma write_media_panics (title : string) (is_album : bool) (hdr : list string)
    (ms : list Medium) (i : nat) (m : Medium) :
  nth_error ms i = Some m ->
  medium_cuesheet title is_album hdr m = None ->
  snd (write_media title is_album hdr ms) = Panicked /\
  (List.length (fst (write_media title is_album hdr ms)) <= i)%nat.
Proof.
  revert i. induction ms as [| m' ms IH]; intros i Hi Hm; [destruct i; discriminate |].
  simpl. destruct i as [| i]; simpl in Hi.
  - injection Hi as ->. rewrite Hm. simpl. split; [reflexivity | lia].
  - destruct (medium_cuesheet title is_album hdr m') as [ls |]; [| simpl; split; [reflexivity | lia]].
    destruct (IH i Hi Hm) as [H1 H2].
    destruct (write_media title is_album hdr ms) as [w o]. simpl in *. split; [exact H1 | lia].
Qed.

(** ** Shape of the lines *)

Lemma medium_title_shape (title : string) (is_album : bool) (m : Medium) :
  exists x, medium_title title is_album m = "TITLE " ++ x.
Proof.
  unfold medium_title.
  destruct is_album, (md_title m) as [t |]; try destruct (negb (String.eqb t ""));
    repeat rewrite string_app_assoc; eexists; reflexivity.
Qed.

Lemma header_shape (r : Release) (x : string) :
  In x (release_cuesheet_lines r) ->
  exists y, x = "PERFORMER " ++ y \/ x = "REM GENRE " ++ y \/ x = "REM DATE " ++ y \/
            x = "REM COMMENT " ++ y \/ x = "REM MUSICBRAINZ_ALBUM_ID " ++ y \/ x = "FILE " ++ y.
Proof.
  unfold release_cuesheet_lines, performer_lines, release_group_lines, genre_lines,
    date_lines, label_lines.
  intros H. repeat rewrite in_app_iff in H.
  destruct H as [H | [H | [H | H]]].
  - destruct (rl_artist_credit r); simpl in H; [| tauto].
    destruct H as [<- | []]. eexists; left; reflexivity.
  - destruct (rl_release_group r) as [rg |]; simpl in H; [| tauto].
    rewrite in_app_iff in H. destruct H as [H | H].
    + destruct (rg_genres rg); simpl in H; [| tauto].
      destruct H as [<- | []]. eexists; right; left; reflexivity.
    + destruct (rg_first_release_date rg); simpl in H; [| tauto].
      destruct H as [<- | []]. eexists; right; right; left; reflexivity.
  - destruct (rl_label_info r); simpl in H; [| tauto].
    destruct (label_comment_lines_shape _ _ H) as [n ->].
    exists (quoted n). tauto.
  - simpl in H. destruct H as [<- | [<- | []]]; eexists; right; right; right; right;
      [left | right]; reflexivity.
Qed.

Lemma header_no_index (r : Release) :
  lines_with_prefix "    INDEX 01 " (release_cuesheet_lines r) = [].
Proof.
  apply filter_nil_of. intros x Hx.
  destruct (header_shape r x Hx) as [y H].
  repeat destruct H as [-> | H]; try reflexivity. subst x. reflexivity.
Qed.

Lemma blocks_index (ts : list Track) (os : list Z) :
  List.length os = List.length ts ->
  lines_with_prefix "    INDEX 01 " (List.concat (blocks ts os)) =
  map (fun o => "    INDEX 01 " ++ millisecond_to_mmssff o) os.
Proof.
  revert os. induction ts as [| t ts IH]; intros [| o os] Hl; simpl in *; try lia;
    [reflexivity |].
  unfold lines_with_prefix in *. rewrite filter_app. rewrite IH by lia.
  unfold track_block, track_performer_lines.
  remember (millisecond_to_mmssff o) as z eqn:Ez.
  destruct (rec_artist_credit (tr_recording t)); simpl; destruct z; reflexivity.
Qed.

(** [millisecond_to_mmssff] reads only [ms mod 1000] for the frames. *)
Lemma frames_mod (ms : Z) : frames ms = frames (ms mod 1000).
Proof. unfold frames, ms_part. now rewrite Zmod_mod. Qed.

Definition frames_table_ok : bool :=
  forallb (fun k => let f := frames (Z.of_nat k) in
                    (0 <=? f) && (f <=? 75) && Bool.eqb (f =? 75) (994 <=? Z.of_nat k))
          (seq 0 1000).

Lemma frames_table : frames_table_ok = true.
Proof. vm_compute. reflexivity. Qed.

(** For every [u32] input the seconds field is below 60 and the frames field
    at most 75; it is 75 exactly when [ms mod 1000] is 994 or more. *)
Lemma timecode_fields (ms : Z) :
  0 <= ms ->
  0 <= seconds ms < 60 /\ 0 <= frames ms <= 75 /\
  (frames ms = 75 <-> 994 <= ms mod 1000).
Proof.
  intros Hms. split; [unfold seconds; apply Z.mod_pos_bound; lia |].
  rewrite frames_mod.
  assert (Hk : 0 <= ms mod 1000 < 1000) by (apply Z.mod_pos_bound; lia).
  set (k := ms mod 1000) in *.
  assert (Hin : In (Z.to_nat k) (seq 0 1000)) by (apply in_seq; lia).
  pose proof frames_table as T. unfold frames_table_ok in T.
  rewrite forallb_forall in T. specialize (T _ Hin). simpl in T.
  rewrite Z2Nat.id in T by lia.
  apply andb_prop in T as [T1 T2]. apply andb_prop in T1 as [T0 T1].
  apply Z.leb_le in T0. apply Z.leb_le in T1. apply Bool.eqb_prop in T2.
  split; [lia |]. split; intros H.
  - apply Z.eqb_eq in H. rewrite H in T2. symmetry in T2. apply Z.leb_le in T2. exact T2.
  - apply Z.leb_le in H. rewrite H in T2. apply Z.eqb_eq in T2. exact T2.
Qed.

(** ** Claims *)

(** C1 (code_bug): the frames field is not kept below 75.  For [ms = 999] the
    quotient 74.925 rounds to 75 and no carry into the seconds is made, so the
    converter outputs [00:00:75]. *)
Theorem millisecond_to_mmssff_999 : millisecond_to_mmssff 999 = "00:00:75".
Proof. vm_compute. reflexivity. Qed.

(** The INDEX lines of a medium's cuesheet are the converted offsets of its
    own tracks, accumulated from 0. *)
Lemma medium_cuesheet_index (title : string) (is_album : bool) (r : Release) (m : Medium)
    (ls : list string) :
  medium_cuesheet title is_album (release_cuesheet_lines r) m = Some ls ->
  exists lens, track_lengths (default [] (md_tracks m)) = Some lens /\
    lines_with_prefix "    INDEX 01 " ls =
    map (fun o => "    INDEX 01 " ++ millisecond_to_mmssff o) (starts 0 lens).
Proof.
  unfold medium_cuesheet.
  destruct (track_lines 0 (default [] (md_tracks m))) as [tl |] eqn:E; [| discriminate].
  intros H. injection H as <-.
  destruct (track_lines_some _ _ _ E) as (lens & Hl & ->).
  exists lens. split; [exact Hl |].
  destruct (medium_title_shape title is_album m) as [x Hx].
  assert (Hp : String.prefix "    INDEX 01 " (medium_title title is_album m) = false)
    by (rewrite Hx; reflexivity).
  pose proof (header_no_index r) as H0.
  unfold lines_with_prefix in *. cbn [filter]. rewrite Hp.
  rewrite filter_app, H0. simpl app.
  apply blocks_index. rewrite starts_length. now apply track_lengths_length.
Qed.

(** C3: the [k]-th INDEX 01 line (from 0) of the cuesheet written for
    medium [i] carries the timecode of the sum of the lengths of the first
    [k] tracks of that same medium, summed in [u32]; the first one is
    [00:00:00], the offset restarting at 0 for every medium. *)
Theorem index_is_timecode_of_prefix_sum (r : Release) (ms : list Medium) (i : nat)
    (f c : string) :
  rl_media r = Some ms ->
  nth_error (fst (cuesheet_generation r)) i = Some (f, c) ->
  exists m ls lens,
    nth_error ms i = Some m /\ c = render ls /\
    track_lengths (default [] (md_tracks m)) = Some lens /\
    List.length (lines_with_prefix "    INDEX 01 " ls) = List.length lens /\
    (forall k, (k < List.length lens)%nat ->
       nth_error (lines_with_prefix "    INDEX 01 " ls) k =
       Some ("    INDEX 01 " ++ millisecond_to_mmssff (sum (firstn k lens) mod 2 ^ 32))) /\
    (lens <> [] ->
       nth_error (lines_with_prefix "    INDEX 01 " ls) 0 = Some "    INDEX 01 00:00:00").
Proof.
  intros Hm Hw. unfold cuesheet_generation in Hw. rewrite Hm in Hw.
  destruct (write_media_nth _ _ _ _ _ _ _ Hw) as (m & ls & Hi & Hc & _ & ->).
  destruct (medium_cuesheet_index _ _ _ _ _ Hc) as (lens & Hl & Hidx).
  exists m, ls, lens. rewrite Hidx.
  assert (Hk : forall k, (k < List.length lens)%nat ->
     nth_error (map (fun o => "    INDEX 01 " ++ millisecond_to_mmssff o) (starts 0 lens)) k =
     Some ("    INDEX 01 " ++ millisecond_to_mmssff (sum (firstn k lens) mod 2 ^ 32))).
  { intros k Hk. rewrite nth_error_map, nth_error_starts by lia. reflexivity. }
  repeat split; try assumption.
  - now rewrite length_map, starts_length.
  - intros Hne. destruct lens as [| l lens]; [now contradiction Hne |].
    rewrite (Hk 0%nat) by (simpl; lia). reflexivity.
Qed.

(** A track without length makes its medium's generation panic: the run
    stops, the medium's file is not written, and every file written before
    comes from a medium whose tracks all have a length. *)
Lemma missing_length_fatal (r : Release) (ms : list Medium) (i : nat) (m : Medium)
    (pre post : list Track) (t : Track) :
  rl_media r = Some ms -> nth_error ms i = Some m ->
  default [] (md_tracks m) = pre +++ t :: post -> tr_length t = None ->
  snd (cuesheet_generation r) = Panicked /\
  (List.length (fst (cuesheet_generation r)) <= i)%nat /\
  (forall j f c, nth_error (fst (cuesheet_generation r)) j = Some (f, c) ->
     exists m' lens, nth_error ms j = Some m' /\
       track_lengths (default [] (md_tracks m')) = Some lens).
Proof.
  intros Hm Hi Ht Hn. unfold cuesheet_generation. rewrite Hm.
  assert (Hnone : forall title a hdr, medium_cuesheet title a hdr m = None).
  { intros. unfold medium_cuesheet. rewrite Ht, track_lines_none; [reflexivity |].
    now apply track_lengths_app_none. }
  destruct (write_media_panics (rl_title r) (1 <? List.length ms)%nat
              (release_cuesheet_lines r) ms i m Hi (Hnone _ _ _)) as [H1 H2].
  split; [exact H1 |]. split; [exact H2 |].
  intros j f c Hj.
  destruct (write_media_nth _ _ _ _ _ _ _ Hj) as (m' & ls & Hj' & Hc & _ & _).
  destruct (medium_cuesheet_index _ _ _ _ _ Hc) as (lens & Hl & _).
  now exists m', lens.
Qed.

(** C4: a track without length that is followed by another track of its
    medium aborts the generation (it panics); that medium's cuesheet is never
    written, and no written cuesheet is built from a missing length. *)
Theorem missing_length_nonterminal_aborts (r : Release) (ms : list Medium) (i : nat)
    (m : Medium) (pre post : list Track) (t t' : Track) :
  rl_media r = Some ms -> nth_error ms i = Some m ->
  default [] (md_tracks m) = pre +++ t :: t' :: post -> tr_length t = None ->
  snd (cuesheet_generation r) = Panicked /\
  (List.length (fst (cuesheet_generation r)) <= i)%nat /\
  (forall j f c, nth_error (fst (cuesheet_generation r)) j = Some (f, c) ->
     exists m' lens, nth_error ms j = Some m' /\
       track_lengths (default [] (md_tracks m')) = Some lens).
Proof. intros Hm Hi Ht Hn. exact (missing_length_fatal r ms i m pre (t' :: post) t Hm Hi Ht Hn). Qed.

(** C10: a final track without length, on any medium of the release and so
    also on the last one, aborts the generation as well: that medium's
    cuesheet is never written, and every file written before comes from a
    medium whose tracks all have a length. *)
Theorem missing_length_final_aborts (r : Release) (ms : list Medium) (i : nat)
    (m : Medium) (pre : list Track) (t : Track) :
  rl_media r = Some ms -> nth_error ms i = Some m ->
  default [] (md_tracks m) = pre +++ [t] -> tr_length t = None ->
  snd (cuesheet_generation r) = Panicked /\
  (List.length (fst (cuesheet_generation r)) <= i)%nat /\
  (forall j f c, nth_error (fst (cuesheet_generation r)) j = Some (f, c) ->
     exists m' lens, nth_error ms j = Some m' /\
       track_lengths (default [] (md_tracks m')) = Some lens).
Proof. intros Hm Hi Ht Hn. exact (missing_length_fatal r ms i m pre [] t Hm Hi Ht Hn). Qed.

(** ** Example inputs *)

Definition ex_artist : list ArtistCredit := [{| ac_name := "Artist"; ac_joinphrase := None |}].

Definition ex_track (pos : Z) (title : string) (len : option Z)
    (credits : option (list ArtistCredit)) : Track :=
  {| tr_position := pos; tr_title := title;
     tr_recording := {| rec_artist_credit := credits |}; tr_length := len |}.

Definition ex_medium (pos : Z) (tracks : list Track) : Medium :=
  {| md_format := Some "CD"; md_position := Some pos; md_title := None;
     md_tracks := Some tracks |}.

Definition ex_release (rg : option ReleaseGroup) (labels : option (list LabelInfo))
    (media : list Medium) : Release :=
  {| rl_id := "id1"; rl_title := "Album"; rl_artist_credit := Some ex_artist;
     rl_release_group := rg; rl_label_info := labels; rl_media := Some media |}.

(** ** Header lines selected by their keyword *)

Lemma label_lines_other_prefix (p : string) (r : Release) :
  (forall y, String.prefix p ("REM COMMENT " ++ y) = false) ->
  filter (String.prefix p) (label_lines r) = [].
Proof.
  intros Hp. apply filter_nil_of. intros x Hx. unfold label_lines in Hx.
  destruct (rl_label_info r); [| destruct Hx].
  destruct (label_comment_lines_shape _ _ Hx) as [n ->]. apply Hp.
Qed.

Ltac header_segments :=
  unfold lines_with_prefix, release_cuesheet_lines; rewrite !filter_app.

(** C2 (counterexample): the first line of a medium's cuesheet is its TITLE
    line; the PERFORMER line of the header comes after it. *)
Theorem title_line_precedes_header :
  cuesheet_generation
    (ex_release None None [ex_medium 1 [ex_track 1 "One" (Some 1000) None]]) =
  ([("CD 01.cue",
     render ["TITLE " ++ quoted "Album"; "PERFORMER " ++ quoted "Artist";
             "REM MUSICBRAINZ_ALBUM_ID id1"; "FILE " ++ quoted "CDImage.flac" ++ " WAVE";
             "  TRACK 01 AUDIO"; "    TITLE " ++ quoted "One"; "    INDEX 01 00:00:00"])],
   Completed).
Proof. vm_compute. reflexivity. Qed.

(** C2 (amended): every cuesheet written for medium [i] consists of the
    medium's TITLE line first, then the header block in the order PERFORMER,
    REM GENRE, REM DATE, REM COMMENT lines, REM MUSICBRAINZ_ALBUM_ID, FILE, then
    the TRACK blocks of the medium's tracks. *)
Theorem medium_cuesheet_line_order (r : Release) (ms : list Medium) (i : nat) (f c : string) :
  rl_media r = Some ms ->
  nth_error (fst (cuesheet_generation r)) i = Some (f, c) ->
  exists m lens, nth_error ms i = Some m /\
    track_lengths (default [] (md_tracks m)) = Some lens /\
    c = render (medium_title (rl_title r) (1 <? List.length ms)%nat m ::
                performer_lines r +++
                (match rl_release_group r with
                 | Some rg => genre_lines rg +++ date_lines rg
                 | None => [] end) +++
                label_lines r +++
                ["REM MUSICBRAINZ_ALBUM_ID " ++ rl_id r;
                 "FILE " ++ quoted "CDImage.flac" ++ " WAVE"] +++
                List.concat (blocks (default [] (md_tracks m)) (starts 0 lens))).
Proof.
  intros Hm Hw. unfold cuesheet_generation in Hw. rewrite Hm in Hw.
  destruct (write_media_nth _ _ _ _ _ _ _ Hw) as (m & ls & Hi & Hc & _ & ->).
  unfold medium_cuesheet in Hc.
  destruct (track_lines 0 (default [] (md_tracks m))) as [tl |] eqn:E; [| discriminate].
  injection Hc as <-. destruct (track_lines_some _ _ _ E) as (lens & Hl & ->).
  exists m, lens. split; [exact Hi |]. split; [exact Hl |].
  unfold release_cuesheet_lines, release_group_lines. now rewrite <- !app_assoc.
Qed.

(** C5 (counterexample): a release group whose genre list is present but
    empty still gets a REM GENRE line, with an empty value. *)
Theorem genre_line_for_empty_genres :
  lines_with_prefix "REM GENRE "
    (release_cuesheet_lines
       (ex_release (Some {| rg_genres := Some []; rg_first_release_date := None |}) None [])) =
  ["REM GENRE "].
Proof. vm_compute. reflexivity. Qed.

(** C5 (amended): the header has a REM GENRE line exactly when the release
    has a release group whose genre list is present (empty or not); its value
    is the genre names joined by "; " in their order. *)
Theorem genre_line_emitted (r : Release) :
  lines_with_prefix "REM GENRE " (release_cuesheet_lines r) =
  match rl_release_group r with
  | Some rg =>
      match rg_genres rg with
      | Some genres => ["REM GENRE " ++ String.concat "; " (map genre_name genres)]
      | None => []
      end
  | None => []
  end.
Proof.
  header_segments.
  rewrite (label_lines_other_prefix _ r) by (intros; reflexivity).
  unfold performer_lines, release_group_lines, genre_lines, date_lines.
  destruct (rl_artist_credit r), (rl_release_group r) as [rg |];
    try destruct (rg_genres rg), (rg_first_release_date rg);
    cbn [filter app]; rewrite ?prefix_app; reflexivity.
Qed.

(** C6 (counterexample): a track whose recording has an empty, present
    artist credit list gets a PERFORMER line with empty quotes. *)
Theorem track_performer_for_empty_credits :
  In ("    PERFORMER " ++ quoted "") (track_block (ex_track 1 "One" (Some 1000) (Some [])) 0).
Proof. vm_compute. right. right. left. reflexivity. Qed.

(** C6 (amended): the block each track gets in its medium's cuesheet has a
    PERFORMER line exactly when the track's recording artist credit list is
    present (empty or not), with the joined credits as its quoted value; a
    track whose credit list is absent has none. *)
Theorem track_performer_line_iff_credits_present (t : Track) (track_start : Z) :
  lines_with_prefix "    PERFORMER " (track_block t track_start) =
  match rec_artist_credit (tr_recording t) with
  | Some artists => ["    PERFORMER " ++ quoted (join_artists artists)]
  | None => []
  end.
Proof.
  unfold lines_with_prefix, track_block, track_performer_lines.
  destruct (rec_artist_credit (tr_recording t)); cbn [filter app];
    rewrite ?prefix_app; reflexivity.
Qed.

(** The names of the labels present in the label infos, in input order. *)
Definition label_names (r : Release) : list string :=
  flat_map (fun li => match li_label li with Some l => [label_name l] | None => [] end)
           (default [] (rl_label_info r)).

Lemma label_comment_lines_names (lis : list LabelInfo) :
  label_comment_lines (filter_map li_label lis) =
  map (fun n => "REM COMMENT " ++ quoted n)
      (filter (fun n => negb (String.eqb n ""))
              (flat_map (fun li => match li_label li with
                                   | Some l => [label_name l] | None => [] end) lis)).
Proof.
  induction lis as [| li lis IH]; simpl; [reflexivity |].
  destruct (li_label li) as [l |]; simpl; [| exact IH].
  destruct (negb (String.eqb (label_name l) "")); simpl; now rewrite IH.
Qed.

(** C7 (counterexample): two label infos naming the same label give two
    identical REM COMMENT lines. *)
Theorem duplicate_label_comment_lines :
  let li := {| li_label := Some {| label_name := "L" |} |} in
  lines_with_prefix "REM COMMENT "
    (release_cuesheet_lines (ex_release None (Some [li; li]) [])) =
  ["REM COMMENT " ++ quoted "L"; "REM COMMENT " ++ quoted "L"].
Proof. vm_compute. reflexivity. Qed.

(** C7 (amended): the header has one REM COMMENT line per label-info entry
    whose label is present with a non-empty name, in input order; entries
    without a label or with an empty name are skipped, and repeated names are
    not merged. *)
Theorem label_comment_per_entry (r : Release) :
  lines_with_prefix "REM COMMENT " (release_cuesheet_lines r) =
  map (fun n => "REM COMMENT " ++ quoted n)
      (filter (fun n => negb (String.eqb n "")) (label_names r)).
Proof.
  header_segments.
  assert (Hl : filter (String.prefix "REM COMMENT ") (label_lines r) = label_lines r).
  { apply filter_all_of. intros x Hx. unfold label_lines in Hx.
    destruct (rl_label_info r); [| destruct Hx].
    destruct (label_comment_lines_shape _ _ Hx) as [n ->]. apply prefix_app. }
  rewrite Hl. unfold label_lines, label_names.
  unfold performer_lines, release_group_lines, genre_lines, date_lines.
  destruct (rl_label_info r) as [lis |]; [rewrite label_comment_lines_names |];
  destruct (rl_artist_credit r), (rl_release_group r) as [rg |];
    try destruct (rg_genres rg), (rg_first_release_date rg);
    cbn [filter app]; simpl; rewrite ?app_nil_r; reflexivity.
Qed.

Lemma month_lengths_pos (y : Z) : Forall (fun x => 0 <= x) (month_lengths y).
Proof. unfold month_lengths. destruct (is_leap y); repeat constructor; lia. Qed.

Lemma sum_firstn_nonneg (n : nat) (l : list Z) :
  Forall (fun x => 0 <= x) l -> 0 <= sum (firstn n l).
Proof.
  intros H. revert n. induction H as [| x l Hx _ IH]; intros [| n]; simpl; try lia.
  specialize (IH n). unfold sum in *. lia.
Qed.

Lemma ordinal_one_iff (d : NaiveDate) :
  1 <= nd_month d <= 12 -> 1 <= nd_day d ->
  (ordinal d = 1 <-> nd_month d = 1 /\ nd_day d = 1).
Proof.
  intros Hm Hd. unfold ordinal.
  destruct (Z.to_nat (nd_month d - 1)) as [| n] eqn:E.
  - simpl. assert (nd_month d = 1) by lia. lia.
  - unfold month_lengths. cbn [firstn fold_right].
    pose proof (month_lengths_pos (nd_year d)) as P. unfold month_lengths in P.
    inversion P as [| ? ? _ P']; subst.
    pose proof (sum_firstn_nonneg n _ P') as S. unfold sum in S. lia.
Qed.

(** C8: for a release whose release group has a first-release date [d], the
    header has exactly one REM DATE line, holding the year alone when the day
    of the year of [d] is 1 and the full [YYYY-MM-DD] date otherwise; for a
    valid date the day of the year is 1 exactly on January 1st. *)
Theorem date_line_precision (r : Release) (rg : ReleaseGroup) (d : NaiveDate) :
  rl_release_group r = Some rg -> rg_first_release_date rg = Some d ->
  lines_with_prefix "REM DATE " (release_cuesheet_lines r) =
  ["REM DATE " ++ (if ordinal d =? 1 then display_i (nd_year d)
                   else naive_date_to_string d)] /\
  (1 <= nd_month d <= 12 -> 1 <= nd_day d ->
   (ordinal d = 1 <-> nd_month d = 1 /\ nd_day d = 1)).
Proof.
  intros Hrg Hd. split; [| apply ordinal_one_iff].
  header_segments.
  rewrite (label_lines_other_prefix _ r) by (intros; reflexivity).
  unfold performer_lines, release_group_lines, genre_lines, date_lines.
  rewrite Hrg, Hd.
  destruct (rl_artist_credit r), (rg_genres rg); cbn [filter app];
    rewrite ?prefix_app; reflexivity.
Qed.

(** The title suffix of a medium's own, non-empty title. *)
Definition medium_subtitle (m : Medium) : string :=
  match md_title m with
  | Some t => if String.eqb t "" then "" else ": " ++ t
  | None => ""
  end.

Lemma medium_title_eq (title : string) (is_album : bool) (m : Medium) :
  medium_title title is_album m =
  "TITLE " ++ dq ++ title ++ (if is_album then "- " ++ medium_id m else "") ++
  medium_subtitle m ++ dq.
Proof.
  unfold medium_title, medium_subtitle.
  destruct is_album, (md_title m) as [t |]; try destruct (String.eqb t "");
    simpl; repeat rewrite string_app_assoc; reflexivity.
Qed.

(** C9: the cuesheet written for medium [i] is named after the medium
    identifier, format (default empty) and two-digit position (default 0),
    followed by ".cue"; its TITLE line carries no identifier suffix when the
    release has one medium, and the suffix "- <identifier>" when it has two or
    more. *)
Theorem medium_title_and_file_name (r : Release) (ms : list Medium) (i : nat) (f c : string) :
  rl_media r = Some ms ->
  nth_error (fst (cuesheet_generation r)) i = Some (f, c) ->
  exists m ls, nth_error ms i = Some m /\ c = render ls /\
    f = medium_id m ++ ".cue" /\
    medium_id m = default "" (md_format m) ++ " " ++ fmt02 (default 0 (md_position m)) /\
    (List.length ms = 1%nat ->
       hd_error ls = Some ("TITLE " ++ dq ++ rl_title r ++ medium_subtitle m ++ dq)) /\
    ((2 <= List.length ms)%nat ->
       hd_error ls = Some ("TITLE " ++ dq ++ rl_title r ++ "- " ++ medium_id m ++
                           medium_subtitle m ++ dq)).
Proof.
  intros Hm Hw. unfold cuesheet_generation in Hw. rewrite Hm in Hw.
  destruct (write_media_nth _ _ _ _ _ _ _ Hw) as (m & ls & Hi & Hc & -> & ->).
  exists m, ls. unfold medium_cuesheet in Hc.
  destruct (track_lines 0 (default [] (md_tracks m))); [| discriminate].
  injection Hc as <-. rewrite medium_title_eq.
  repeat split; try assumption; intros Hlen; simpl; f_equal.
  - rewrite Hlen. reflexivity.
  - replace (1 <? List.length ms)%nat with true by (symmetry; apply Nat.ltb_lt; lia).
    reflexivity.
Qed.

(** ** Witnesses *)

(** The contents of the [i]-th file written for [r]. *)
Definition written_contents (r : Release) (i : nat) : string :=
  snd (List.nth i (fst (cuesheet_generation r)) ("", "")).

(** One medium, tracks of 180000 ms and 200000 ms. *)
Definition c3_media : list Medium :=
  [ex_medium 1 [ex_track 1 "One" (Some 180000) None; ex_track 2 "Two" (Some 200000) None]].

Lemma index_is_timecode_of_prefix_sum_witness :
  exists m ls lens,
    nth_error c3_media 0 = Some m /\
    written_contents (ex_release None None c3_media) 0 = render ls /\
    track_lengths (default [] (md_tracks m)) = Some lens /\
    List.length (lines_with_prefix "    INDEX 01 " ls) = List.length lens /\
    (forall k, (k < List.length lens)%nat ->
       nth_error (lines_with_prefix "    INDEX 01 " ls) k =
       Some ("    INDEX 01 " ++ millisecond_to_mmssff (sum (firstn k lens) mod 2 ^ 32))) /\
    (lens <> [] ->
       nth_error (lines_with_prefix "    INDEX 01 " ls) 0 = Some "    INDEX 01 00:00:00").
Proof.
  apply (index_is_timecode_of_prefix_sum (ex_release None None c3_media) c3_media 0
           "CD 01.cue" (written_contents (ex_release None None c3_media) 0));
    vm_compute; reflexivity.
Defined.

Lemma medium_cuesheet_line_order_witness :
  exists m lens, nth_error c3_media 0 = Some m /\
    track_lengths (default [] (md_tracks m)) = Some lens /\
    written_contents (ex_release None None c3_media) 0 =
    render (medium_title "Album" (1 <? List.length c3_media)%nat m ::
            performer_lines (ex_release None None c3_media) +++ [] +++
            label_lines (ex_release None None c3_media) +++
            ["REM MUSICBRAINZ_ALBUM_ID id1"; "FILE " ++ quoted "CDImage.flac" ++ " WAVE"] +++
            List.concat (blocks (default [] (md_tracks m)) (starts 0 lens))).
Proof.
  apply (medium_cuesheet_line_order (ex_release None None c3_media) c3_media 0
           "CD 01.cue" (written_contents (ex_release None None c3_media) 0));
    vm_compute; reflexivity.
Defined.

(** The first of two tracks has no length. *)
Definition c4_media : list Medium :=
  [ex_medium 1 [ex_track 1 "One" None None; ex_track 2 "Two" (Some 1000) None]].

Lemma missing_length_nonterminal_aborts_witness :
  snd (cuesheet_generation (ex_release None None c4_media)) = Panicked /\
  (List.length (fst (cuesheet_generation (ex_release None None c4_media))) <= 0)%nat /\
  (forall j f c, nth_error (fst (cuesheet_generation (ex_release None None c4_media))) j =
                 Some (f, c) ->
     exists m' lens, nth_error c4_media j = Some m' /\
       track_lengths (default [] (md_tracks m')) = Some lens).
Proof.
  apply (missing_length_nonterminal_aborts (ex_release None None c4_media) c4_media 0
           (ex_medium 1 [ex_track 1 "One" None None; ex_track 2 "Two" (Some 1000) None])
           [] [] (ex_track 1 "One" None None) (ex_track 2 "Two" (Some 1000) None));
    vm_compute; reflexivity.
Defined.

(** Two media; the last track of the second one has no length. *)
Definition c10_media : list Medium :=
  [ex_medium 1 [ex_track 1 "One" (Some 1000) None; ex_track 2 "Two" None None];
   ex_medium 2 [ex_track 1 "Three" (Some 2000) None]].

Lemma missing_length_final_aborts_witness :
  snd (cuesheet_generation (ex_release None None c10_media)) = Panicked /\
  (List.length (fst (cuesheet_generation (ex_release None None c10_media))) <= 0)%nat /\
  (forall j f c, nth_error (fst (cuesheet_generation (ex_release None None c10_media))) j =
       Some (f, c) ->
     exists m' lens, nth_error c10_media j = Some m' /\
       track_lengths (default [] (md_tracks m')) = Some lens).
Proof.
  apply (missing_length_final_aborts (ex_release None None c10_media) c10_media 0
           (ex_medium 1 [ex_track 1 "One" (Some 1000) None; ex_track 2 "Two" None None])
           [ex_track 1 "One" (Some 1000) None] (ex_track 2 "Two" None None));
    vm_compute; reflexivity.
Defined.

Definition c8_date : NaiveDate := {| nd_year := 1999; nd_month := 1; nd_day := 1 |}.
Definition c8_group : ReleaseGroup :=
  {| rg_genres := Some [{| genre_name := "Rock" |}]; rg_first_release_date := Some c8_date |}.

Lemma date_line_precision_witness :
  lines_with_prefix "REM DATE " (release_cuesheet_lines (ex_release (Some c8_group) None [])) =
  ["REM DATE " ++ (if ordinal c8_date =? 1 then display_i (nd_year c8_date)
                   else naive_date_to_string c8_date)] /\
  (1 <= nd_month c8_date <= 12 -> 1 <= nd_day c8_date ->
   (ordinal c8_date = 1 <-> nd_month c8_date = 1 /\ nd_day c8_date = 1)).
Proof.
  apply (date_line_precision (ex_release (Some c8_group) None []) c8_group c8_date);
    reflexivity.
Defined.

(** Two media, the second one with a title of its own. *)
Definition c9_media : list Medium :=
  [ex_medium 1 [ex_track 1 "One" (Some 1000) None];
   {| md_format := Some "CD"; md_position := Some 2; md_title := Some "Live";
      md_tracks := Some [ex_track 1 "Two" (Some 2000) None] |}].

Lemma medium_title_and_file_name_witness :
  exists m ls, nth_error c9_media 1 = Some m /\
    written_contents (ex_release None None c9_media) 1 = render ls /\
    "CD 02.cue" = medium_id m ++ ".cue" /\
    medium_id m = default "" (md_format m) ++ " " ++ fmt02 (default 0 (md_position m)) /\
    (List.length c9_media = 1%nat ->
       hd_error ls = Some ("TITLE " ++ dq ++ "Album" ++ medium_subtitle m ++ dq)) /\
    ((2 <= List.length c9_media)%nat ->
       hd_error ls = Some ("TITLE " ++ dq ++ "Album" ++ "- " ++ medium_id m ++
                           medium_subtitle m ++ dq)).
Proof.
  apply (medium_title_and_file_name (ex_release None None c9_media) c9_media 1
           "CD 02.cue" (written_contents (ex_release None None c9_media) 1));
    vm_compute; reflexivity.
Defined.

(** The scenarios of the specification. *)
Example timecode_values :
  map millisecond_to_mmssff [0; 60000; 180000; 993] = ["00:00:00"; "01:00:00"; "03:00:00"; "00:00:74"].
Proof. vm_compute. reflexivity. Qed.

Example single_medium_scenario :
  cuesheet_generation (ex_release None None c3_media) =
  ([("CD 01.cue",
     render ["TITLE " ++ quoted "Album"; "PERFORMER " ++ quoted "Artist";
             "REM MUSICBRAINZ_ALBUM_ID id1"; "FILE " ++ quoted "CDImage.flac" ++ " WAVE";
             "  TRACK 01 AUDIO"; "    TITLE " ++ quoted "One"; "    INDEX 01 00:00:00";
             "  TRACK 02 AUDIO"; "    TITLE " ++ quoted "Two"; "    INDEX 01 03:00:00"])],
   Completed).
Proof. vm_compute. reflexivity. Qed.

(** ** Further properties of the converter and of the generation *)

Definition frames_exact_table : bool :=
  forallb (fun k => frames (Z.of_nat k) =? (75 * Z.of_nat k + 500) / 1000) (seq 0 1000).

Lemma frames_exact_table_ok : frames_exact_table = true.
Proof. vm_compute. reflexivity. Qed.

(** The [f64] frame computation is exact: the frames field is
    [ms mod 1000] times 75/1000, rounded half up, with no floating-point
    error for any input. *)
Theorem frames_is_exact_rounding (ms : Z) :
  0 <= ms -> frames ms = (75 * (ms mod 1000) + 500) / 1000.
Proof.
  intros Hms. rewrite frames_mod.
  assert (Hk : 0 <= ms mod 1000 < 1000) by (apply Z.mod_pos_bound; lia).
  pose proof frames_exact_table_ok as T. unfold frames_exact_table in T.
  rewrite forallb_forall in T.
  specialize (T (Z.to_nat (ms mod 1000)) ltac:(apply in_seq; lia)).
  rewrite Z2Nat.id in T by lia. now apply Z.eqb_eq in T.
Qed.

Lemma frames_is_exact_rounding_witness : frames 999 = (75 * (999 mod 1000) + 500) / 1000.
Proof. apply frames_is_exact_rounding. lia. Defined.

(** The minutes and seconds fields with the sub-second part give back the
    input: the converter loses nothing but the rounding of the last second. *)
Theorem timecode_fields_decompose (ms : Z) :
  0 <= ms -> minutes ms * 60000 + seconds ms * 1000 + ms mod 1000 = ms.
Proof.
  intros Hms. unfold minutes, seconds.
  replace 60000 with (1000 * 60) by reflexivity.
  rewrite <- Z.div_div by lia.
  pose proof (Z.div_mod ms 1000 ltac:(lia)) as H1.
  pose proof (Z.div_mod (ms / 1000) 60 ltac:(lia)) as H2.
  lia.
Qed.

Lemma timecode_fields_decompose_witness :
  minutes 4321987 * 60000 + seconds 4321987 * 1000 + 4321987 mod 1000 = 4321987.
Proof. apply timecode_fields_decompose. lia. Defined.

Lemma timecode_fields_witness :
  0 <= seconds 999 < 60 /\ 0 <= frames 999 <= 75 /\ (frames 999 = 75 <-> 994 <= 999 mod 1000).
Proof. apply timecode_fields. lia. Defined.

Lemma concat_empty_sep (l : list string) :
  String.concat "" l = fold_right String.append "" l.
Proof.
  induction l as [| x [| y l] IH]; [reflexivity | |].
  - simpl. induction x as [| a x IHx]; simpl; [reflexivity | f_equal; exact IHx].
  - change (String.concat "" (x :: y :: l)) with (x ++ "" ++ String.concat "" (y :: l)).
    rewrite IH. reflexivity.
Qed.

(** [join_artists] puts nothing between the credits: the text of two credit
    lists one after the other is the text of the first followed by that of
    the second. *)
Theorem join_artists_app (a b : list ArtistCredit) :
  join_artists (a +++ b) = join_artists a ++ join_artists b.
Proof.
  unfold join_artists. rewrite !concat_empty_sep, map_app.
  induction (map _ a) as [| x l IH]; simpl; [reflexivity |].
  now rewrite IH, string_app_assoc.
Qed.

Lemma track_lines_none_inv (s : Z) (ts : list Track) :
  track_lines s ts = None -> track_lengths ts = None.
Proof.
  revert s. induction ts as [| t ts IH]; intros s H; simpl in *; [discriminate |].
  destruct (tr_length t) as [len |]; [| reflexivity].
  destruct (track_lines (u32_add s len) ts) eqn:E; [discriminate |].
  now rewrite (IH _ E).
Qed.

Lemma medium_cuesheet_none_iff (title : string) (is_album : bool) (hdr : list string)
    (m : Medium) :
  medium_cuesheet title is_album hdr m = None <-> track_lengths (default [] (md_tracks m)) = None.
Proof.
  unfold medium_cuesheet. split.
  - destruct (track_lines 0 (default [] (md_tracks m))) eqn:E; [discriminate |].
    intros _. exact (track_lines_none_inv _ _ E).
  - intros H. now rewrite (track_lines_none 0 _ H).
Qed.

(** When the media loop runs to its end, every medium had a length for each
    of its tracks, and one file was written per medium, in the order of the
    media, named after the medium identifier. *)
Theorem generation_completed_all_lengths (r : Release) (ms : list Medium) :
  rl_media r = Some ms -> snd (cuesheet_generation r) = Completed ->
  Forall (fun m => track_lengths (default [] (md_tracks m)) <> None) ms /\
  map fst (fst (cuesheet_generation r)) = map (fun m => medium_id m ++ ".cue") ms.
Proof.
  intros Hm. unfold cuesheet_generation. rewrite Hm.
  generalize (1 <? List.length ms)%nat as a. intros a. clear Hm.
  induction ms as [| m ms IH]; simpl.
  - intros _. split; [constructor | reflexivity].
  - destruct (medium_cuesheet (rl_title r) a (release_cuesheet_lines r) m) as [ls |] eqn:E;
      [| discriminate].
    assert (Hl : track_lengths (default [] (md_tracks m)) <> None).
    { intros Hn.
      apply (proj2 (medium_cuesheet_none_iff (rl_title r) a (release_cuesheet_lines r) m)) in Hn.
      congruence. }
    destruct (write_media (rl_title r) a (release_cuesheet_lines r) ms) as [w o].
    simpl. intros Ho. destruct (IH Ho) as [H1 H2].
    split; [now constructor | simpl; f_equal; exact H2].
Qed.

Lemma generation_completed_all_lengths_witness :
  Forall (fun m => track_lengths (default [] (md_tracks m)) <> None) c9_media /\
  map fst (fst (cuesheet_generation (ex_release None None c9_media))) =
  map (fun m => medium_id m ++ ".cue") c9_media.
Proof. apply (generation_completed_all_lengths (ex_release None None c9_media)); reflexivity. Defined.

(** ** [main] as a whole, with its effects

    A run records the effects [main] performs, in order, and ends either
    normally ([Some]) or in a panic ([None]) from an [unwrap]. *)

Record Response := {
  resp_status : Z;                       (** [resp.status()] *)
  resp_url_path : string;                (** [resp.url().path()] *)
  resp_bytes : option (list Byte.byte) }.  (** [resp.bytes()] *)

(** [img.types] are given by their [{:#?}] names. *)
Record CoverartImage := { img_types : list string; img_image : string }.

Inductive CoverartResponse :=
| CoverUrl (cover_art_url : string)
| CoverJson (images : list CoverartImage).

Record Args := { release_id : string; cover_art : bool; out_dir : string }.

Inductive Event :=
| ECreateDir (path : string)
| EWriteText (path : string) (contents : string)
| EWriteBytes (path : string) (contents : list Byte.byte)
| EFetchRelease (id : string)
| EFetchCoverart (id : string)
| EHttpGet (url : string)
| EHttpErrorCode (status : Z)          (** [eprintln!("HTTP error code {}", ...)] *)
| EEprint (msg : string)
| ESleep (secs : Z).

Definition Run (A : Type) : Type := (list Event * option A)%type.

Definition ret {A} (a : A) : Run A := ([], Some a).
Definition panic {A} : Run A := ([], None).
Definition emit (e : Event) : Run unit := ([e], Some tt).

Definition bind {A B} (m : Run A) (f : A -> Run B) : Run B :=
  match m with
  | (evs, Some a) => let '(evs', r) := f a in (evs +++ evs', r)
  | (evs, None) => (evs, None)
  end.

Notation "x <- m ;; f" := (bind m (fun x => f)) (at level 61, m at next level, right associativity).
Notation "m ;;; f" := (bind m (fun _ => f)) (at level 61, right associativity).

(** [200..=299] *)
Definition is_success (status : Z) : bool := (200 <=? status) && (status <=? 299).

Section Main.

(** The collaborators: [Path::join], [Path::new(p).extension()],
    [Path::with_extension], [reqwest::blocking::get] ([None] for an error),
    whether a filesystem operation on a path succeeds, and the two catalog
    fetches ([None] for an error). *)
Variable join : string -> string -> string.
Variable extension : string -> option string.
Variable with_extension : string -> string -> string.
Variable http_get : string -> option Response.
Variable fs_ok : string -> bool.
Variable fetch_release : string -> option Release.
Variable fetch_coverart : string -> option CoverartResponse.

(** [std::fs::create_dir_all(p).unwrap()] *)
Definition create_dir_all (p : string) : Run unit :=
  emit (ECreateDir p) ;;; if fs_ok p then ret tt else panic.

(** [std::fs::write(p, data).unwrap()] *)
Definition write_text (p : string) (s : string) : Run unit :=
  emit (EWriteText p s) ;;; if fs_ok p then ret tt else panic.

Definition write_bytes (p : string) (bs : list Byte.byte) : Run unit :=
  emit (EWriteBytes p bs) ;;; if fs_ok p then ret tt else panic.

Definition download_cover_art (url : string) (output_path_prefix : string) : Run unit :=
  emit (EHttpGet url) ;;;
  match http_get url with
  | None => panic
  | Some resp =>
      if is_success (resp_status resp) then
        match extension (resp_url_path resp) with
        | None => panic
        | Some file_extension =>
            let output_path := with_extension output_path_prefix file_extension in
            match resp_bytes resp with
            | None => panic
            | Some bs => write_bytes output_path bs
            end
        end
      else emit (EHttpErrorCode (resp_status resp))
  end.

(** [for img in cover_art.images { ...; std::thread::sleep(1 s); }] *)
Fixpoint download_images (cover_art_path : string) (imgs : list CoverartImage) : Run unit :=
  match imgs with
  | [] => ret tt
  | img :: rest =>
      let img_filename_stem := String.concat "_" (img_types img) in
      download_cover_art (img_image img) (join cover_art_path img_filename_stem) ;;;
      emit (ESleep 1) ;;;
      download_images cover_art_path rest
  end.

Definition COVER_ART_PATH_COMPONENT : string := "Cover".

Definition cover_art_step (args : Args) : Run unit :=
  let cover_art_path := join (out_dir args) COVER_ART_PATH_COMPONENT in
  emit (EFetchCoverart (release_id args)) ;;;
  match fetch_coverart (release_id args) with
  | Some (CoverUrl cover_art_url) => download_cover_art cover_art_url cover_art_path
  | Some (CoverJson images) =>
      create_dir_all cover_art_path ;;; download_images cover_art_path images
  | None => emit (EEprint "Failed to download cover art")
  end.

(** The media loop with its writes. *)
Fixpoint write_cuesheets (dir title : string) (is_album : bool) (hdr : list string)
    (media : list Medium) : Run unit :=
  match media with
  | [] => ret tt
  | m :: rest =>
      match medium_cuesheet title is_album hdr m with
      | None => panic
      | Some ls =>
          write_text (join dir (medium_id m ++ ".cue")) (render ls) ;;;
          write_cuesheets dir title is_album hdr rest
      end
  end.

(** [main] after [Args::parse()]; [set_user_agent] only configures the
    requests and is not an effect of its own here. *)
Definition main (args : Args) : Run unit :=
  create_dir_all (out_dir args) ;;;
  emit (EFetchRelease (release_id args)) ;;;
  match fetch_release (release_id args) with
  | None => panic
  | Some release =>
      match rl_media release with
      | Some media =>
          write_cuesheets (out_dir args) (rl_title release) (1 <? List.length media)%nat
            (release_cuesheet_lines release) media
      | None => ret tt
      end ;;;
      if cover_art args then cover_art_step args else ret tt
  end.

End Main.

(** ** Properties of the effects *)

Lemma bind_emit {B} (e : Event) (f : unit -> Run B) :
  bind (emit e) f = (e :: fst (f tt), snd (f tt)).
Proof. unfold bind, emit. now destruct (f tt). Qed.

Lemma bind_some {A B} (evs : list Event) (a : A) (f : A -> Run B) :
  bind (evs, Some a) f = (evs +++ fst (f a), snd (f a)).
Proof. unfold bind. now destruct (f a). Qed.

Lemma bind_ext {A B} (m : Run A) (f g : A -> Run B) :
  (forall a, f a = g a) -> bind m f = bind m g.
Proof. intros H. destruct m as [evs [a |]]; simpl; [now rewrite H | reflexivity]. Qed.

Lemma bind_assoc {A B C} (m : Run A) (f : A -> Run B) (g : B -> Run C) :
  bind (bind m f) g = bind m (fun a => bind (f a) g).
Proof.
  destruct m as [evs [a |]]; simpl; [| reflexivity].
  destruct (f a) as [evs' [b |]]; simpl; [| reflexivity].
  destruct (g b) as [evs'' r]. now rewrite app_assoc.
Qed.

Lemma bind_ret_l {A B} (a : A) (f : A -> Run B) : bind (ret a) f = f a.
Proof. unfold bind, ret. now destruct (f a). Qed.

Definition is_sleep (e : Event) : bool := match e with ESleep _ => true | _ => false end.

Section Props.

Variable join : string -> string -> string.
Variable extension : string -> option string.
Variable with_extension : string -> string -> string.
Variable http_get : string -> option Response.
Variable fs_ok : string -> bool.
Variable fetch_release : string -> option Release.
Variable fetch_coverart : string -> option CoverartResponse.

Lemma download_images_app (dir : string) (a b : list CoverartImage) :
  download_images join extension with_extension http_get fs_ok dir (a +++ b) =
  bind (download_images join extension with_extension http_get fs_ok dir a)
       (fun _ => download_images join extension with_extension http_get fs_ok dir b).
Proof.
  induction a as [| img a IH]; cbn [app download_images].
  - now rewrite bind_ret_l.
  - rewrite bind_assoc. apply bind_ext. intros [].
    rewrite bind_assoc. apply bind_ext. intros []. exact IH.
Qed.

Lemma download_cover_art_no_sleep (url p : string) :
  filter is_sleep (fst (download_cover_art extension with_extension http_get fs_ok url p)) = [].
Proof.
  unfold download_cover_art. rewrite bind_emit. simpl.
  destruct (http_get url) as [resp |]; [| reflexivity].
  destruct (is_success (resp_status resp)); [| reflexivity].
  destruct (extension (resp_url_path resp)); [| reflexivity].
  destruct (resp_bytes resp); [| reflexivity].
  unfold write_bytes. rewrite bind_emit. simpl. now destruct (fs_ok _).
Qed.

(** An image whose request gets a non-success status is reported with its
    status code and skipped: the loop sleeps and goes on with the next
    images as if the image were not there. *)
Theorem http_error_image_skipped (dir : string) (pre post : list CoverartImage)
    (img : CoverartImage) (resp : Response) :
  http_get (img_image img) = Some resp -> is_success (resp_status resp) = false ->
  download_images join extension with_extension http_get fs_ok dir (pre +++ img :: post) =
  bind (download_images join extension with_extension http_get fs_ok dir pre)
       (fun _ => (EHttpGet (img_image img) :: EHttpErrorCode (resp_status resp) :: ESleep 1 ::
                  fst (download_images join extension with_extension http_get fs_ok dir post),
                  snd (download_images join extension with_extension http_get fs_ok dir post))).
Proof.
  intros Hg Hs. rewrite download_images_app. apply bind_ext. intros [].
  cbn [download_images].
  destruct (download_images join extension with_extension http_get fs_ok dir post) as [e r].
  unfold download_cover_art. simpl. rewrite Hg, Hs. reflexivity.
Qed.

(** A failed request for an image ([reqwest::blocking::get] returning an
    error), or a successful one whose final URL path has no extension, panics
    the run: nothing is written for that image and no later image is
    requested. *)
Theorem failed_image_request_aborts (dir : string) (pre post : list CoverartImage)
    (img : CoverartImage) :
  (http_get (img_image img) = None \/
   exists resp, http_get (img_image img) = Some resp /\ is_success (resp_status resp) = true /\
                extension (resp_url_path resp) = None) ->
  download_images join extension with_extension http_get fs_ok dir (pre +++ img :: post) =
  bind (download_images join extension with_extension http_get fs_ok dir pre)
       (fun _ => ([EHttpGet (img_image img)], None)).
Proof.
  intros H. rewrite download_images_app. apply bind_ext. intros [].
  cbn [download_images].
  destruct (download_images join extension with_extension http_get fs_ok dir post) as [e r].
  unfold download_cover_art. simpl.
  destruct H as [Hg | (resp & Hg & Hs & He)]; rewrite Hg; [reflexivity |].
  rewrite Hs, He. reflexivity.
Qed.

(** When every image's download runs to its end, the loop does too, and it
    sleeps once per image, after the last one as well. *)
Theorem one_sleep_per_image (dir : string) (imgs : list CoverartImage) :
  (forall img, In img imgs ->
     snd (download_cover_art extension with_extension http_get fs_ok (img_image img)
            (join dir (String.concat "_" (img_types img)))) = Some tt) ->
  snd (download_images join extension with_extension http_get fs_ok dir imgs) = Some tt /\
  List.length (filter is_sleep
     (fst (download_images join extension with_extension http_get fs_ok dir imgs))) =
  List.length imgs.
Proof.
  induction imgs as [| img imgs IH]; intros H; [split; reflexivity |].
  destruct IH as [IH1 IH2]; [intros i Hi; apply H; now right |].
  pose proof (H img (or_introl eq_refl)) as Himg.
  pose proof (download_cover_art_no_sleep (img_image img)
                (join dir (String.concat "_" (img_types img)))) as Hn.
  cbn [download_images].
  destruct (download_cover_art extension with_extension http_get fs_ok (img_image img)
              (join dir (String.concat "_" (img_types img)))) as [evs [[] |]];
    simpl in Himg; [| discriminate].
  simpl in Hn.
  destruct (download_images join extension with_extension http_get fs_ok dir imgs) as [e r].
  simpl in IH1, IH2 |- *. subst r.
  split; [reflexivity |]. rewrite filter_app, Hn. simpl. now rewrite IH2.
Qed.

End Props.

Section MainProps.

Variable join : string -> string -> string.
Variable extension : string -> option string.
Variable with_extension : string -> string -> string.
Variable http_get : string -> option Response.
Variable fs_ok : string -> bool.
Variable fetch_release : string -> option Release.
Variable fetch_coverart : string -> option CoverartResponse.

Definition write_events (dir : string) (written : list (string * string)) : list Event :=
  map (fun fc => EWriteText (join dir (fst fc)) (snd fc)) written.

Lemma write_cuesheets_ok (dir title : string) (is_album : bool) (hdr : list string)
    (ms : list Medium) :
  (forall p, fs_ok p = true) ->
  write_cuesheets join fs_ok dir title is_album hdr ms =
  (write_events dir (fst (write_media title is_album hdr ms)),
   match snd (write_media title is_album hdr ms) with
   | Completed => Some tt
   | Panicked => None
   end).
Proof.
  intros Hfs. induction ms as [| m ms IH]; [reflexivity |]. cbn [write_cuesheets write_media].
  destruct (medium_cuesheet title is_album hdr m) as [ls |]; [| reflexivity].
  rewrite IH. destruct (write_media title is_album hdr ms) as [w o].
  unfold write_text. rewrite Hfs. simpl. now destruct o.
Qed.

Lemma main_trace (args : Args) (r : Release) :
  (forall p, fs_ok p = true) -> fetch_release (release_id args) = Some r ->
  main join extension with_extension http_get fs_ok fetch_release fetch_coverart args =
  (ECreateDir (out_dir args) :: EFetchRelease (release_id args) ::
   write_events (out_dir args) (fst (cuesheet_generation r)) +++
   match snd (cuesheet_generation r) with
   | Completed =>
       if cover_art args
       then fst (cover_art_step join extension with_extension http_get fs_ok fetch_coverart args)
       else []
   | Panicked => []
   end,
   match snd (cuesheet_generation r) with
   | Completed =>
       if cover_art args
       then snd (cover_art_step join extension with_extension http_get fs_ok fetch_coverart args)
       else Some tt
   | Panicked => None
   end).
Proof.
  intros Hfs Hr. unfold main, create_dir_all. rewrite Hfs, Hr. unfold cuesheet_generation.
  destruct (rl_media r) as [ms |].
  - rewrite write_cuesheets_ok by exact Hfs.
    destruct (write_media (rl_title r) (1 <? List.length ms)%nat (release_cuesheet_lines r) ms)
      as [w o].
    simpl. destruct o; simpl; [| now rewrite app_nil_r].
    destruct (cover_art args); simpl; [| now rewrite app_nil_r].
    now destruct (cover_art_step join extension with_extension http_get fs_ok fetch_coverart args).
  - simpl. destruct (cover_art args); simpl; [| reflexivity].
    now destruct (cover_art_step join extension with_extension http_get fs_ok fetch_coverart args).
Qed.

(** With a working filesystem and a fetched release, [main] creates the
    output directory, fetches the release, writes exactly the cuesheets of the
    media loop (each under the output directory), and goes on to the cover
    art, when asked for, only if that loop ran to its end; a panic of the loop
    ends the run. *)
Theorem main_runs_generation_then_cover_art (args : Args) (r : Release) :
  (forall p, fs_ok p = true) -> fetch_release (release_id args) = Some r ->
  main join extension with_extension http_get fs_ok fetch_release fetch_coverart args =
  (ECreateDir (out_dir args) :: EFetchRelease (release_id args) ::
   write_events (out_dir args) (fst (cuesheet_generation r)) +++
   match snd (cuesheet_generation r) with
   | Completed =>
       if cover_art args
       then fst (cover_art_step join extension with_extension http_get fs_ok fetch_coverart args)
       else []
   | Panicked => []
   end,
   match snd (cuesheet_generation r) with
   | Completed =>
       if cover_art args
       then snd (cover_art_step join extension with_extension http_get fs_ok fetch_coverart args)
       else Some tt
   | Panicked => None
   end).
Proof. intros Hfs Hr. exact (main_trace args r Hfs Hr). Qed.

(** When the media loop panics (a track without length), [main] ends in a
    panic without fetching any cover art and without any HTTP request. *)
Theorem generation_panic_skips_cover_art (args : Args) (r : Release) :
  (forall p, fs_ok p = true) -> fetch_release (release_id args) = Some r ->
  snd (cuesheet_generation r) = Panicked ->
  snd (main join extension with_extension http_get fs_ok fetch_release fetch_coverart args) = None /\
  (forall id, ~ In (EFetchCoverart id)
     (fst (main join extension with_extension http_get fs_ok fetch_release fetch_coverart args))) /\
  (forall url, ~ In (EHttpGet url)
     (fst (main join extension with_extension http_get fs_ok fetch_release fetch_coverart args))).
Proof.
  intros Hfs Hr Hp. rewrite (main_trace args r Hfs Hr), Hp. simpl.
  rewrite app_nil_r. unfold write_events.
  split; [reflexivity |]. split; intros x Hx.
  - destruct Hx as [H | [H | H]]; try discriminate.
    apply in_map_iff in H. destruct H as (fc & H & _). discriminate.
  - destruct Hx as [H | [H | H]]; try discriminate.
    apply in_map_iff in H. destruct H as (fc & H & _). discriminate.
Qed.

(** A failed cover-art request is reported and the run still ends normally,
    after the cuesheets. *)
Theorem cover_art_fetch_failure_reported (args : Args) (r : Release) :
  (forall p, fs_ok p = true) -> fetch_release (release_id args) = Some r ->
  snd (cuesheet_generation r) = Completed -> cover_art args = true ->
  fetch_coverart (release_id args) = None ->
  main join extension with_extension http_get fs_ok fetch_release fetch_coverart args =
  (ECreateDir (out_dir args) :: EFetchRelease (release_id args) ::
   write_events (out_dir args) (fst (cuesheet_generation r)) +++
   [EFetchCoverart (release_id args); EEprint "Failed to download cover art"],
   Some tt).
Proof.
  intros Hfs Hr Hc Ha Hf. rewrite (main_trace args r Hfs Hr), Hc, Ha.
  unfold cover_art_step. rewrite bind_emit. simpl. now rewrite Hf.
Qed.

(** A release that cannot be fetched panics [main] right after the output
    directory is created: no file is written and nothing else is requested. *)
Theorem release_fetch_failure_aborts (args : Args) :
  fs_ok (out_dir args) = true -> fetch_release (release_id args) = None ->
  main join extension with_extension http_get fs_ok fetch_release fetch_coverart args =
  ([ECreateDir (out_dir args); EFetchRelease (release_id args)], None).
Proof. intros Hfs Hr. unfold main, create_dir_all. rewrite Hfs, Hr. reflexivity. Qed.

End MainProps.

(** ** A concrete environment for the witnesses *)

Definition ex_join (a b : string) : string := a ++ "/" ++ b.
Definition ex_extension (p : string) : option string :=
  if String.eqb p "/front.jpg" then Some "jpg" else None.
Definition ex_with_extension (p e : string) : string := p ++ "." ++ e.
Definition ex_http_get (url : string) : option Response :=
  if String.eqb url "http://a/front" then
    Some {| resp_status := 200; resp_url_path := "/front.jpg"; resp_bytes := Some [] |}
  else if String.eqb url "http://a/back" then
    Some {| resp_status := 404; resp_url_path := "/back"; resp_bytes := Some [] |}
  else None.
Definition ex_fs_ok (p : string) : bool := true.
Definition ex_fetch_release (id : string) : option Release :=
  if String.eqb id "id1" then Some (ex_release None None c3_media)
  else if String.eqb id "id4" then Some (ex_release None None c4_media) else None.
Definition ex_fetch_coverart (id : string) : option CoverartResponse := None.

Definition ex_front : CoverartImage := {| img_types := ["Front"]; img_image := "http://a/front" |}.
Definition ex_back : CoverartImage := {| img_types := ["Back"]; img_image := "http://a/back" |}.
Definition ex_lost : CoverartImage := {| img_types := ["Medium"]; img_image := "http://a/lost" |}.
Definition ex_args (id : string) : Args := {| release_id := id; cover_art := true; out_dir := "out" |}.

Lemma http_error_image_skipped_witness :
  download_images ex_join ex_extension ex_with_extension ex_http_get ex_fs_ok "out/Cover"
    ([ex_front] +++ ex_back :: [ex_front]) =
  bind (download_images ex_join ex_extension ex_with_extension ex_http_get ex_fs_ok "out/Cover" [ex_front])
       (fun _ => (EHttpGet (img_image ex_back) :: EHttpErrorCode 404 :: ESleep 1 ::
                  fst (download_images ex_join ex_extension ex_with_extension ex_http_get ex_fs_ok
                         "out/Cover" [ex_front]),
                  snd (download_images ex_join ex_extension ex_with_extension ex_http_get ex_fs_ok
                         "out/Cover" [ex_front]))).
Proof.
  apply (http_error_image_skipped ex_join ex_extension ex_with_extension ex_http_get ex_fs_ok
           "out/Cover" [ex_front] [ex_front] ex_back
           {| resp_status := 404; resp_url_path := "/back"; resp_bytes := Some [] |});
    vm_compute; reflexivity.
Defined.

Lemma failed_image_request_aborts_witness :
  download_images ex_join ex_extension ex_with_extension ex_http_get ex_fs_ok "out/Cover"
    ([ex_front] +++ ex_lost :: [ex_back]) =
  bind (download_images ex_join ex_extension ex_with_extension ex_http_get ex_fs_ok "out/Cover" [ex_front])
       (fun _ => ([EHttpGet (img_image ex_lost)], None)).
Proof.
  apply (failed_image_request_aborts ex_join ex_extension ex_with_extension ex_http_get ex_fs_ok
           "out/Cover" [ex_front] [ex_back] ex_lost).
  left. vm_compute. reflexivity.
Defined.

Lemma one_sleep_per_image_witness :
  snd (download_images ex_join ex_extension ex_with_extension ex_http_get ex_fs_ok "out/Cover"
         [ex_front; ex_back]) = Some tt /\
  List.length (filter is_sleep
     (fst (download_images ex_join ex_extension ex_with_extension ex_http_get ex_fs_ok "out/Cover"
             [ex_front; ex_back]))) = List.length [ex_front; ex_back].
Proof.
  apply (one_sleep_per_image ex_join ex_extension ex_with_extension ex_http_get ex_fs_ok
           "out/Cover" [ex_front; ex_back]).
  intros img [<- | [<- | []]]; vm_compute; reflexivity.
Defined.

Lemma main_runs_generation_then_cover_art_witness :
  main ex_join ex_extension ex_with_extension ex_http_get ex_fs_ok ex_fetch_release
    ex_fetch_coverart (ex_args "id1") =
  (ECreateDir "out" :: EFetchRelease "id1" ::
   write_events ex_join "out" (fst (cuesheet_generation (ex_release None None c3_media))) +++
   match snd (cuesheet_generation (ex_release None None c3_media)) with
   | Completed =>
       if cover_art (ex_args "id1")
       then fst (cover_art_step ex_join ex_extension ex_with_extension ex_http_get ex_fs_ok
                   ex_fetch_coverart (ex_args "id1"))
       else []
   | Panicked => []
   end,
   match snd (cuesheet_generation (ex_release None None c3_media)) with
   | Completed =>
       if cover_art (ex_args "id1")
       then snd (cover_art_step ex_join ex_extension ex_with_extension ex_http_get ex_fs_ok
                   ex_fetch_coverart (ex_args "id1"))
       else Some tt
   | Panicked => None
   end).
Proof.
  apply (main_runs_generation_then_cover_art ex_join ex_extension ex_with_extension ex_http_get
           ex_fs_ok ex_fetch_release ex_fetch_coverart (ex_args "id1")
           (ex_release None None c3_media)); [intros p; reflexivity | reflexivity].
Defined.

Lemma generation_panic_skips_cover_art_witness :
  snd (main ex_join ex_extension ex_with_extension ex_http_get ex_fs_ok ex_fetch_release
         ex_fetch_coverart (ex_args "id4")) = None /\
  (forall id, ~ In (EFetchCoverart id)
     (fst (main ex_join ex_extension ex_with_extension ex_http_get ex_fs_ok ex_fetch_release
             ex_fetch_coverart (ex_args "id4")))) /\
  (forall url, ~ In (EHttpGet url)
     (fst (main ex_join ex_extension ex_with_extension ex_http_get ex_fs_ok ex_fetch_release
             ex_fetch_coverart (ex_args "id4")))).
Proof.
  apply (generation_panic_skips_cover_art ex_join ex_extension ex_with_extension ex_http_get
           ex_fs_ok ex_fetch_release ex_fetch_coverart (ex_args "id4")
           (ex_release None None c4_media));
    [intros p; reflexivity | reflexivity | vm_compute; reflexivity].
Defined.

Lemma cover_art_fetch_failure_reported_witness :
  main ex_join ex_extension ex_with_extension ex_http_get ex_fs_ok ex_fetch_release
    ex_fetch_coverart (ex_args "id1") =
  (ECreateDir "out" :: EFetchRelease "id1" ::
   write_events ex_join "out" (fst (cuesheet_generation (ex_release None None c3_media))) +++
   [EFetchCoverart "id1"; EEprint "Failed to download cover art"],
   Some tt).
Proof.
  apply (cover_art_fetch_failure_reported ex_join ex_extension ex_with_extension ex_http_get
           ex_fs_ok ex_fetch_release ex_fetch_coverart (ex_args "id1")
           (ex_release None None c3_media));
    [intros p; reflexivity | reflexivity | vm_compute; reflexivity | reflexivity | reflexivity].
Defined.

Lemma release_fetch_failure_aborts_witness :
  main ex_join ex_extension ex_with_extension ex_http_get ex_fs_ok ex_fetch_release
    ex_fetch_coverart (ex_args "none") =
  ([ECreateDir "out"; EFetchRelease "none"], None).
Proof.
  apply (release_fetch_failure_aborts ex_join ex_extension ex_with_extension ex_http_get
           ex_fs_ok ex_fetch_release ex_fetch_coverart (ex_args "none")); reflexivity.
Defined.
